(** * Trailarr events pages: a model of the Angular event feed

    The development embeds the TypeScript of the events pages of the
    Trailarr front end:

    - [models/event.ts]              : [EventType], [EventSource], [EventRead];
    - [events.component.ts]          : the all-events page ([EventsComponent]);
    - [media-events.component.ts]    : the per-media page ([MediaEventsComponent]);
    - [services/events.service.ts]   : the HTTP wrapper ([EventsService]), in
      its two revisions (with and without [filterParams]).

    Conventions.  A JavaScript string is a [string] of bytes: ASCII text,
    with a character outside ASCII (the arrow of the descriptions) as its
    UTF-8 bytes.  [toLowerCase] and [trim] are the ASCII ones: they act on
    the letters A to Z and on TAB, LF, VT, FF, CR and the space, and leave
    every other byte alone.  The counters [displayCount] and [limit] only
    ever hold small non-negative integers and are [nat]; an id is a [Z],
    printed in decimal as JavaScript prints an integer below 10^21.
    Signals are record fields, an [effect] is run by the setter that
    triggers it, and an [httpResource] is the pair of its request (a pure
    function of the state) and the value last delivered. *)

From Stdlib Require Import ZArith Lia Ascii.
From stdpp Require Import base list strings gmap pretty.

Local Open Scope Z_scope.

(** ** JavaScript primitives used by the components *)

Module Js.

(** [c] lies in 'A'..'Z'. *)
Definition is_upper (c : ascii) : bool :=
  let n := nat_of_ascii c in (65 <=? n)%nat && (n <=? 90)%nat.

Definition lower_char (c : ascii) : ascii :=
  if is_upper c then ascii_of_nat (nat_of_ascii c + 32) else c.

(** [s.toLowerCase()] *)
Fixpoint toLowerCase (s : string) : string :=
  match s with
  | EmptyString => EmptyString
  | String c r => String (lower_char c) (toLowerCase r)
  end.

(** White space as [trim] sees it, within ASCII: TAB, LF, VT, FF, CR, SP. *)
Definition is_white_space (c : ascii) : bool :=
  let n := nat_of_ascii c in ((9 <=? n)%nat && (n <=? 13)%nat) || (n =? 32)%nat.

Fixpoint trimStart (s : string) : string :=
  match s with
  | EmptyString => EmptyString
  | String c r => if is_white_space c then trimStart r else s
  end.

(** [trimEnd] keeps a character when it is not white space or when
    something remains after it. *)
Fixpoint trimEnd (s : string) : string :=
  match s with
  | EmptyString => EmptyString
  | String c r =>
      match trimEnd r with
      | EmptyString => if is_white_space c then EmptyString else String c EmptyString
      | r' => String c r'
      end
  end.

(** [s.trim()] *)
Definition trim (s : string) : string := trimEnd (trimStart s).

(** [s.startsWith(q)] *)
Fixpoint startsWith (s q : string) {struct q} : bool :=
  match q, s with
  | EmptyString, _ => true
  | String _ _, EmptyString => false
  | String a q', String b s' => bool_decide (a = b) && startsWith s' q'
  end.

(** [s.includes(q)]: [q] occurs in [s] at some position. *)
Fixpoint includes (s q : string) : bool :=
  startsWith s q ||
  match s with
  | EmptyString => false
  | String _ s' => includes s' q
  end.

(** [s.replaceAll(a, b)] for one-character [a] and [b]. *)
Fixpoint replaceAll (a b : ascii) (s : string) : string :=
  match s with
  | EmptyString => EmptyString
  | String c r => String (if bool_decide (c = a) then b else c) (replaceAll a b r)
  end.

(** Truthiness of a string: non-empty. *)
Definition truthy_string (s : string) : bool :=
  match s with EmptyString => false | String _ _ => true end.

(** Truthiness of a [string | null] (or [string | undefined]) value. *)
Definition truthy (o : option string) : bool :=
  match o with Some s => truthy_string s | None => false end.

(** [o || d] at type string. *)
Definition or_else (o : option string) (d : string) : string :=
  match o with
  | Some (String c r) => String c r
  | _ => d
  end.

(** [`${o}`] for a [string | null]. *)
Definition interpolate (o : option string) : string :=
  match o with Some s => s | None => "null" end.

(** [`${n}`] for an integral number. *)
Definition number_to_string (n : Z) : string := pretty n.

(** Values that a request-parameter object can hold. *)
Inductive value : Type :=
| Undefined
| Null
| Num (n : Z)
| Str (s : string).

Global Instance value_eq_dec : EqDecision value.
Proof. solve_decision. Defined.

(** [v !== undefined && v !== null] *)
Definition is_present (v : value) : bool :=
  match v with Undefined | Null => false | _ => true end.

(** A plain object, as the list of its own entries in insertion order
    ([Object.entries]). *)
Definition object : Type := list (string * value).

End Js.

(** ** [models/event.ts] *)

Module EventType.
Definition MEDIA_ADDED : string := "media_added".
Definition MONITOR_CHANGED : string := "monitor_changed".
Definition YOUTUBE_ID_CHANGED : string := "youtube_id_changed".
Definition TRAILER_DETECTED : string := "trailer_detected".
Definition TRAILER_DOWNLOADED : string := "trailer_downloaded".
Definition TRAILER_DELETED : string := "trailer_deleted".
Definition DOWNLOAD_SKIPPED : string := "download_skipped".

(** [Object.values(EventType)] *)
Definition values : list string :=
  [MEDIA_ADDED; MONITOR_CHANGED; YOUTUBE_ID_CHANGED; TRAILER_DETECTED;
   TRAILER_DOWNLOADED; TRAILER_DELETED; DOWNLOAD_SKIPPED].
End EventType.

Module EventSource.
Definition USER : string := "user".
Definition SYSTEM : string := "system".
Definition values : list string := [USER; SYSTEM].
End EventSource.

(** [r[k]] for a record literal [r] with distinct keys. *)
Fixpoint record_get {A : Type} (r : list (string * A)) (k : string) : option A :=
  match r with
  | [] => None
  | (k', v) :: rest => if bool_decide (k' = k) then Some v else record_get rest k
  end.

Definition EVENT_TYPE_LABELS : list (string * string) :=
  [ (EventType.MEDIA_ADDED, "Media Added");
    (EventType.MONITOR_CHANGED, "Monitor Changed");
    (EventType.YOUTUBE_ID_CHANGED, "YouTube ID Changed");
    (EventType.TRAILER_DETECTED, "Trailer Detected");
    (EventType.TRAILER_DOWNLOADED, "Trailer Downloaded");
    (EventType.TRAILER_DELETED, "Trailer Deleted");
    (EventType.DOWNLOAD_SKIPPED, "Download Skipped") ].

Definition EVENT_SOURCE_LABELS : list (string * string) :=
  [ (EventSource.USER, "User"); (EventSource.SYSTEM, "System") ].

(** An event as it arrives from the server.  The enumerations are strings
    at run time, so [event_type] can hold a value outside [EventType]. *)
Record EventRead : Type := mkEvent {
  id : Z;
  media_id : Z;
  event_type : string;
  source : string;
  source_detail : string;
  old_value : option string;
  new_value : option string;
  created_at : string;
}.

Global Instance EventRead_eq_dec : EqDecision EventRead.
Proof. solve_decision. Defined.

(** ** The media items of [MediaService.combinedMedia]

    The media service is outside the pages modelled here; the events page
    reads two fields of each item, [m.id] and [m.title]. *)
Module Media.
Record t : Type := mk { id : Z; title : string }.
End Media.

(** ** [events.component.ts]: the all-events page *)

Module EventsComponent.

(** The signals of the component, the value of the search form control,
    the value of the [allEvents] resource and the media list on which
    [mediaTitlesMap] is computed. *)
Record state : Type := mkState {
  searchForm : option string;
  displayCount : nat;
  allEvents : list EventRead;
  searchQuery : string;
  selectedEventType : string;
  selectedEventSource : string;
  limit : nat;
  combinedMedia : list Media.t;
}.

(** The field initialisers of the class; the form control starts at
    [null] and the resource at its [defaultValue]. *)
Definition initial : state :=
  {| searchForm := None; displayCount := 50; allEvents := [];
     searchQuery := ""; selectedEventType := "all";
     selectedEventSource := "all"; limit := 500; combinedMedia := [] |}.

Definition with_displayCount (n : nat) (s : state) : state :=
  mkState (searchForm s) n (allEvents s) (searchQuery s)
          (selectedEventType s) (selectedEventSource s) (limit s) (combinedMedia s).

Definition with_limit (n : nat) (s : state) : state :=
  mkState (searchForm s) (displayCount s) (allEvents s) (searchQuery s)
          (selectedEventType s) (selectedEventSource s) n (combinedMedia s).

Definition with_searchForm (v : option string) (s : state) : state :=
  mkState v (displayCount s) (allEvents s) (searchQuery s)
          (selectedEventType s) (selectedEventSource s) (limit s) (combinedMedia s).

Definition with_searchQuery (q : string) (s : state) : state :=
  mkState (searchForm s) (displayCount s) (allEvents s) q
          (selectedEventType s) (selectedEventSource s) (limit s) (combinedMedia s).

Definition with_selectedEventType (t : string) (s : state) : state :=
  mkState (searchForm s) (displayCount s) (allEvents s) (searchQuery s)
          t (selectedEventSource s) (limit s) (combinedMedia s).

Definition with_selectedEventSource (t : string) (s : state) : state :=
  mkState (searchForm s) (displayCount s) (allEvents s) (searchQuery s)
          (selectedEventType s) t (limit s) (combinedMedia s).

Definition with_allEvents (l : list EventRead) (s : state) : state :=
  mkState (searchForm s) (displayCount s) l (searchQuery s)
          (selectedEventType s) (selectedEventSource s) (limit s) (combinedMedia s).

Definition with_combinedMedia (l : list Media.t) (s : state) : state :=
  mkState (searchForm s) (displayCount s) (allEvents s) (searchQuery s)
          (selectedEventType s) (selectedEventSource s) (limit s) l.

(** The [params] of the request of the [allEvents] resource: [limit],
    then the two conditional spreads. *)
Definition requestParams (s : state) : Js.object :=
  [("limit", Js.Num (Z.of_nat (limit s)))]
  ++ (if bool_decide (selectedEventType s ≠ "all")
      then [("event_type", Js.Str (selectedEventType s))] else [])
  ++ (if bool_decide (selectedEventSource s ≠ "all")
      then [("event_source", Js.Str (selectedEventSource s))] else []).

(** [mediaTitlesMap]: [titlesMap.set(m.id, m.title)] for each item in turn,
    a later item replacing an earlier one with the same id. *)
Definition mediaTitlesMap (s : state) : gmap Z string :=
  foldl (λ titlesMap m, <[Media.id m := Media.title m]> titlesMap) ∅ (combinedMedia s).

Definition getMediaTitle (s : state) (mediaId : Z) : string :=
  Js.or_else (mediaTitlesMap s !! mediaId) ("Media #" +:+ Js.number_to_string mediaId).

(** The predicate handed to [events.filter] in [filteredEvents]. *)
Definition matchesQuery (titlesMap : gmap Z string) (query : string) (event : EventRead) : bool :=
  Js.includes (Js.toLowerCase (Js.or_else (Some (source_detail event)) "")) query
  || Js.includes (Js.toLowerCase (Js.or_else (old_value event) "")) query
  || Js.includes (Js.toLowerCase (Js.or_else (new_value event) "")) query
  || Js.includes (Js.replaceAll "_" " " (Js.toLowerCase (event_type event))) query
  || Js.includes (Js.toLowerCase (Js.or_else (titlesMap !! media_id event) "")) query.

(** The local [events] of [filteredEvents] just before the final [slice]. *)
Definition searchedEvents (s : state) : list EventRead :=
  let query := Js.toLowerCase (searchQuery s) in
  let events := allEvents s in
  if Js.truthy_string query && (0 <? String.length (Js.trim query))%nat
  then List.filter (matchesQuery (mediaTitlesMap s) query) events
  else events.

(** [filteredEvents]: what the page renders. *)
Definition filteredEvents (s : state) : list EventRead :=
  take (displayCount s) (searchedEvents s).

(** The body of the [resetDisplayCount] effect. *)
Definition resetDisplayCount (s : state) : state := with_displayCount 50 s.

(** Writing a signal that [resetDisplayCount] reads.  A write of the value
    the signal already holds notifies nobody; any other write marks the
    effect dirty, and it has run by the time the page is rendered. *)
Definition set_searchQuery (q : string) (s : state) : state :=
  if bool_decide (q = searchQuery s) then s
  else resetDisplayCount (with_searchQuery q s).

Definition set_selectedEventType (t : string) (s : state) : state :=
  if bool_decide (t = selectedEventType s) then s
  else resetDisplayCount (with_selectedEventType t s).

Definition set_selectedEventSource (t : string) (s : state) : state :=
  if bool_decide (t = selectedEventSource s) then s
  else resetDisplayCount (with_selectedEventSource t s).

(** The callback that [ngOnInit] subscribes to [route.queryParams]. *)
Definition onQueryParams (params : gmap string string) (s : state) : state :=
  let eventType := params !! "type" in
  let s1 :=
    match eventType with
    | Some t =>
        if Js.truthy_string t && bool_decide (t ∈ EventType.values)
        then set_selectedEventType t s else s
    | None => s
    end in
  let mediaId := params !! "media_id" in
  match mediaId with
  | Some m =>
      if Js.truthy_string m
      then set_searchQuery m (with_searchForm (Some m) s1) else s1
  | None => s1
  end.

(** The callback that [ngOnInit] subscribes to [searchForm.valueChanges]. *)
Definition onSearchFormValue (value : option string) (s : state) : state :=
  set_searchQuery (Js.or_else value "") s.

Definition getEventIcon (eventType : string) : string :=
  if bool_decide (eventType = EventType.MEDIA_ADDED) then "add_circle"
  else if bool_decide (eventType = EventType.MONITOR_CHANGED) then "visibility"
  else if bool_decide (eventType = EventType.YOUTUBE_ID_CHANGED) then "link"
  else if bool_decide (eventType = EventType.TRAILER_DETECTED) then "search"
  else if bool_decide (eventType = EventType.TRAILER_DOWNLOADED) then "download"
  else if bool_decide (eventType = EventType.TRAILER_DELETED) then "delete"
  else if bool_decide (eventType = EventType.DOWNLOAD_SKIPPED) then "block"
  else "info".

Definition loadMore (s : state) : state :=
  let currentCount := displayCount s in
  let events := allEvents s in
  if (length events <=? currentCount)%nat then
    if (limit s <=? length events)%nat
    then with_limit (limit s + 500) s
    else s
  else with_displayCount (currentCount + 30) s.

(** The description of the all-events page. *)
Definition getEventDescription (event : EventRead) : string :=
  if bool_decide (event_type event = EventType.MEDIA_ADDED) then
    "Added from " +:+ Js.interpolate (new_value event)
  else if bool_decide (event_type event = EventType.MONITOR_CHANGED) then
    "Monitor: " +:+ Js.interpolate (old_value event) +:+ " → " +:+ Js.interpolate (new_value event)
  else if bool_decide (event_type event = EventType.YOUTUBE_ID_CHANGED) then
    let oldId := Js.or_else (old_value event) "(none)" in
    let newId := Js.or_else (new_value event) "(none)" in
    "YouTube ID: " +:+ oldId +:+ " → " +:+ newId
  else if bool_decide (event_type event = EventType.TRAILER_DETECTED) then
    "Existing trailer detected on disk"
  else if bool_decide (event_type event = EventType.TRAILER_DOWNLOADED) then
    "Downloaded trailer: " +:+ Js.interpolate (new_value event)
  else if bool_decide (event_type event = EventType.TRAILER_DELETED) then
    "Trailer deleted: " +:+ Js.or_else (new_value event) "unknown reason"
  else if bool_decide (event_type event = EventType.DOWNLOAD_SKIPPED) then
    "Skipped: " +:+ Js.interpolate (new_value event)
  else Js.or_else (new_value event) (Js.or_else (old_value event) "").

(** What can happen to the component: its method and its two
    subscriptions, a write to one of the two filter signals, and a new
    value of the events resource or of the media list. *)
Inductive action : Type :=
| LoadMore
| QueryParams (params : gmap string string)
| SearchFormValue (value : option string)
| SelectEventType (t : string)
| SelectEventSource (t : string)
| EventsValue (events : list EventRead)
| MediaValue (media : list Media.t).

Definition run (s : state) (a : action) : state :=
  match a with
  | LoadMore => loadMore s
  | QueryParams params => onQueryParams params s
  | SearchFormValue value => onSearchFormValue value s
  | SelectEventType t => set_selectedEventType t s
  | SelectEventSource t => set_selectedEventSource t s
  | EventsValue events => with_allEvents events s
  | MediaValue media => with_combinedMedia media s
  end.

(** The state after a sequence of actions, from the initial one. *)
Definition after (actions : list action) : state := foldl run initial actions.

End EventsComponent.

(** ** [media-events.component.ts]: the events of one media item *)

Module MediaEventsComponent.

Definition getEventDescription (event : EventRead) : string :=
  if bool_decide (event_type event = EventType.MEDIA_ADDED) then
    "Media was added to the library"
  else if bool_decide (event_type event = EventType.MONITOR_CHANGED) then
    if bool_decide (old_value event = Some "true") && bool_decide (new_value event = Some "false")
    then "Monitoring disabled"
    else if bool_decide (old_value event = Some "false") && bool_decide (new_value event = Some "true")
    then "Monitoring enabled"
    else "Monitor: " +:+ Js.interpolate (old_value event) +:+ " → " +:+ Js.interpolate (new_value event)
  else if bool_decide (event_type event = EventType.YOUTUBE_ID_CHANGED) then
    if negb (Js.truthy (old_value event)) && Js.truthy (new_value event)
    then "YouTube ID set to " +:+ Js.interpolate (new_value event)
    else if Js.truthy (old_value event) && negb (Js.truthy (new_value event))
    then "YouTube ID cleared (was " +:+ Js.interpolate (old_value event) +:+ ")"
    else "YouTube ID: " +:+ Js.or_else (old_value event) "none"
         +:+ " → " +:+ Js.or_else (new_value event) "none"
  else if bool_decide (event_type event = EventType.TRAILER_DETECTED) then
    if Js.truthy (new_value event)
    then "Trailer detected: " +:+ Js.interpolate (new_value event)
    else "Existing trailer detected"
  else if bool_decide (event_type event = EventType.TRAILER_DOWNLOADED) then
    if Js.truthy (new_value event)
    then "Downloaded from " +:+ Js.interpolate (new_value event)
    else "Trailer downloaded"
  else if bool_decide (event_type event = EventType.TRAILER_DELETED) then
    if Js.truthy (new_value event)
    then "Deleted: " +:+ Js.interpolate (new_value event)
    else "Trailer deleted"
  else if bool_decide (event_type event = EventType.DOWNLOAD_SKIPPED) then
    Js.or_else (new_value event) "Download was skipped"
  else "".

End MediaEventsComponent.

(** ** [services/events.service.ts]

    Two revisions of the service are in the sources.  Both build the same
    URLs; they differ in what they hand to [HttpClient] as [params].  A
    request is the pair of its URL and that [params] option
    ([None] for [undefined]). *)

Record request : Type := mkRequest {
  url : string;
  params : option Js.object;
}.

(** The revision with [filterParams] and the [event_source] parameter. *)
Module EventsService.
Section WithEnvironment.
Variable apiUrl : string.

Definition filterParams (params : option Js.object) : option Js.object :=
  match params with
  | None => None
  | Some entries => Some (List.filter (λ kv, Js.is_present kv.2) entries)
  end.

Definition eventsUrl : string := apiUrl +:+ "events/".

Definition getEvents (params : option Js.object) : request :=
  mkRequest eventsUrl (filterParams params).

Definition getEvent (eventId : Z) : request :=
  mkRequest (eventsUrl +:+ Js.number_to_string eventId) None.

Definition getEventsByMediaId (mediaId : Z) (params : option Js.object) : request :=
  mkRequest (eventsUrl +:+ "media/" +:+ Js.number_to_string mediaId) (filterParams params).

End WithEnvironment.
End EventsService.

(** The revision at [frontend/src/app/services/events.service.ts], which
    casts the record ([params as Record<string, string | number>]) and
    passes it on as it is. *)
Module EventsServiceCast.
Section WithEnvironment.
Variable apiUrl : string.

Definition eventsUrl : string := apiUrl +:+ "events/".

Definition getEvents (params : option Js.object) : request :=
  mkRequest eventsUrl params.

Definition getEventsByMediaId (mediaId : Z) (params : option Js.object) : request :=
  mkRequest (eventsUrl +:+ "media/" +:+ Js.number_to_string mediaId) params.

End WithEnvironment.
End EventsServiceCast.

(** ** The requests of the two pages

    Both pages read through [httpResource] with the URL of the service;
    neither calls the service's methods. *)

Module Resources.
Section WithEnvironment.
Variable apiUrl : string.

(** The request of [EventsComponent.allEvents]. *)
Definition allEvents (s : EventsComponent.state) : request :=
  mkRequest (EventsService.eventsUrl apiUrl) (Some (EventsComponent.requestParams s)).

(** The request of [MediaEventsComponent.events]: no [params]. *)
Definition events (mediaId : Z) : request :=
  mkRequest (EventsService.eventsUrl apiUrl +:+ "media/" +:+ Js.number_to_string mediaId) None.

End WithEnvironment.

End Resources.

(** ** Notions of the specification

    The definitions of this module are written from the words of the
    specification, not from the code; the theorems compare the code with
    them. *)

Module Spec.

(** [q] occurs in [t]: [t] is [q] between a prefix and a suffix. *)
Definition substring (q t : string) : Prop :=
  ∃ pre post : string, t = pre +:+ q +:+ post.

(** A field is "set" (or "present") when it holds a non-empty string and
    "empty" otherwise; the scenario of the YouTube id uses [null] as an
    empty old value. *)
Definition is_set (o : option string) : bool :=
  match o with
  | Some s => negb (bool_decide (s = ""))
  | None => false
  end.

(** [{x}] in a description rule. *)
Definition shown (o : option string) : string :=
  match o with Some s => s | None => "null" end.

(** [{x|none}] in a description rule. *)
Definition shown_or_none (o : option string) : string :=
  if is_set o then shown o else "none".

(** The description column of the mapping table, row by row. *)
Definition description_table : list (string * (option string → option string → string)) :=
  [ ("media_added", λ _ new, "Added from " +:+ shown new);
    ("monitor_changed", λ old new,
       if bool_decide (old = Some "true" ∧ new = Some "false") then "Monitoring disabled"
       else if bool_decide (old = Some "false" ∧ new = Some "true") then "Monitoring enabled"
       else "Monitor: " +:+ shown old +:+ " → " +:+ shown new);
    ("youtube_id_changed", λ old new,
       match is_set old, is_set new with
       | false, true => "YouTube ID set to " +:+ shown new
       | true, false => "YouTube ID cleared (was " +:+ shown old +:+ ")"
       | _, _ => "YouTube ID: " +:+ shown_or_none old +:+ " → " +:+ shown_or_none new
       end);
    ("trailer_detected", λ _ new,
       if is_set new then "Trailer detected: " +:+ shown new else "Existing trailer detected");
    ("trailer_downloaded", λ _ new,
       if is_set new then "Downloaded from " +:+ shown new else "Trailer downloaded");
    ("trailer_deleted", λ _ new,
       if is_set new then "Deleted: " +:+ shown new else "Trailer deleted");
    ("download_skipped", λ _ new,
       if is_set new then shown new else "Download was skipped") ].

(** The row of an event type, if the table has one. *)
Fixpoint row {A : Type} (table : list (string * A)) (event_type : string) : option A :=
  match table with
  | [] => None
  | (k, r) :: rest => if bool_decide (k = event_type) then Some r else row rest event_type
  end.

(** The description the table prescribes; the empty string for an
    unrecognized event type. *)
Definition description (event : EventRead) : string :=
  match row description_table (event_type event) with
  | Some rule => rule (old_value event) (new_value event)
  | None => ""
  end.

(** The icon column of the mapping table, with [info] for the rest. *)
Definition icon_table : list (string * string) :=
  [ ("media_added", "add_circle"); ("monitor_changed", "visibility");
    ("youtube_id_changed", "link"); ("trailer_detected", "search");
    ("trailer_downloaded", "download"); ("trailer_deleted", "delete");
    ("download_skipped", "block") ].

Definition icon (event_type : string) : string :=
  default "info" (row icon_table event_type).

(** A numeric id: a non-empty string of decimal digits. *)
Fixpoint all_digits (s : string) : bool :=
  match s with
  | EmptyString => true
  | String c r => bool_decide (is_Some (Ascii.is_nat c)) && all_digits r
  end.

Definition numeric_id (s : string) : bool := Js.truthy_string s && all_digits s.

(** A string of white space only. *)
Fixpoint blank (s : string) : bool :=
  match s with
  | EmptyString => true
  | String c r => Js.is_white_space c && blank r
  end.

(** A string that starts with a character other than [m]. *)
Definition starts_off_m (t : string) : Prop :=
  match t with
  | EmptyString => False
  | String c _ => c ≠ "m"%char
  end.

(** The fields of an event that the search looks at, as the specification
    lists them: the three free-text fields, the event type with spaces
    for underscores, and the resolved title of the owning entity. *)
Definition searchable_fields (s : EventsComponent.state) (event : EventRead) : list string :=
  [ source_detail event;
    default "" (old_value event);
    default "" (new_value event);
    Js.replaceAll "_" " " (event_type event);
    EventsComponent.getMediaTitle s (media_id event) ].

(** An event is retained when the trimmed query is empty or occurs,
    case-insensitively, in one of the searchable fields. *)
Definition retained (s : EventsComponent.state) (event : EventRead) : Prop :=
  let query := Js.trim (Js.toLowerCase (EventsComponent.searchQuery s)) in
  query = "" ∨ ∃ field, field ∈ searchable_fields s event
                        ∧ substring query (Js.toLowerCase field).

(** The fields as [filteredEvents] reads them: the title comes straight
    from the title map, and an id the map does not bind contributes the
    empty string, not the placeholder of [getMediaTitle]. *)
Definition searched_fields (s : EventsComponent.state) (event : EventRead) : list string :=
  [ source_detail event;
    default "" (old_value event);
    default "" (new_value event);
    Js.replaceAll "_" " " (event_type event);
    default "" (EventsComponent.mediaTitlesMap s !! media_id event) ].

(** The variant of [retained] in which the query is matched as typed:
    lower-cased, but with its leading and trailing white space. *)
Definition retained_as_typed (s : EventsComponent.state) (event : EventRead) : Prop :=
  let query := Js.toLowerCase (EventsComponent.searchQuery s) in
  Js.trim query = "" ∨ ∃ field, field ∈ searched_fields s event
                               ∧ substring query (Js.toLowerCase field).

End Spec.

(** ** Example inputs *)

Module Examples.
Import EventsComponent.

Definition downloaded : EventRead :=
  mkEvent 1 7 "trailer_downloaded" "system" "TrailerDownload" None (Some "abc123")
          "2025-01-01T00:00:00".

Definition added : EventRead :=
  mkEvent 2 8 "media_added" "system" "ConnectionRefresh" None (Some "Radarr")
          "2025-01-01T00:00:00".

Definition monitor_off : EventRead :=
  mkEvent 3 8 "monitor_changed" "user" "API" (Some "true") (Some "false")
          "2025-01-02T00:00:00".

Definition monitor_on : EventRead :=
  mkEvent 4 8 "monitor_changed" "user" "API" (Some "false") (Some "true")
          "2025-01-03T00:00:00".

Definition youtube_set : EventRead :=
  mkEvent 5 8 "youtube_id_changed" "user" "API" None (Some "xyz")
          "2025-01-04T00:00:00".

Definition renamed : EventRead :=
  mkEvent 6 8 "media_renamed" "system" "ConnectionRefresh" (Some "a") (Some "b")
          "2025-01-05T00:00:00".

(** A state in which 80 rows are shown. *)
Definition scrolled : state := with_displayCount 80 initial.

(** A full window of 500 fetched events, 50 of which match the query
    ["trailer"], with the counters at their initial values. *)
Definition full_window : state :=
  with_searchQuery "trailer"
    (with_allEvents (replicate 50 downloaded ++ replicate 450 added) initial).

(** One fetched event, whose media item has a title, and a query typed
    with a leading space. *)
Definition padded_query : state :=
  with_combinedMedia [Media.mk 8 "Inception"]
    (with_searchQuery " radarr" (with_allEvents [added] initial)).

(** One fetched event whose media item is not in the media list. *)
Definition untitled : state :=
  with_searchQuery "media #8" (with_allEvents [added] initial).

(** Two fetched events and a query of white space. *)
Definition blank_query : state :=
  with_searchQuery "  " (with_allEvents [downloaded; added] initial).

(** Two fetched events and the label of the second one's type as query. *)
Definition label_query : state :=
  with_searchQuery "MEDIA ADDED" (with_allEvents [downloaded; added] initial).

(** Two fetched events, a query, and a media list in which media 8 comes
    twice, the second time with its title corrected. *)
Definition retitled : state :=
  with_combinedMedia [Media.mk 8 "Incepton"; Media.mk 7 "Heat"; Media.mk 8 "Inception"]
    (with_searchQuery "cepti" (with_allEvents [downloaded; added] initial)).

(** A media list with a titled item (id 8), an item whose title is empty
    (id 9) and no item with id 7. *)
Definition library : state :=
  with_combinedMedia [Media.mk 8 "Inception"; Media.mk 9 ""] initial.

(** Navigation parameters: a media id that is not a number, and an event
    type that does not exist. *)
Definition media_id_abc : gmap string string := {[ "media_id" := "abc" ]}.
Definition type_unknown : gmap string string := {[ "type" := "media_renamed" ]}.
Definition type_deleted : gmap string string := {[ "type" := "trailer_deleted" ]}.

(** A parameter record with an unset [limit]. *)
Definition limit_unset : Js.object := [("limit", Js.Undefined); ("offset", Js.Num 20)].

End Examples.

(** * Properties *)

(** ** Strings *)

Lemma startsWith_prefix (s q : string) :
  Js.startsWith s q = true ↔ ∃ post, s = q +:+ post.
Proof.
  revert s. induction q as [|a q IH]; intros s; simpl.
  - split; [intros _; exists s; reflexivity | reflexivity].
  - destruct s as [|b s]; simpl.
    + split; [done | intros [post H]; discriminate H].
    + rewrite andb_true_iff, bool_decide_eq_true, IH. split.
      * intros [-> [post ->]]. by exists post.
      * intros [post H]. injection H as -> ->. eauto.
Qed.

Lemma includes_substring (s q : string) :
  Js.includes s q = true ↔ Spec.substring q s.
Proof.
  unfold Spec.substring. induction s as [|c s IH].
  - simpl. rewrite orb_false_r, startsWith_prefix. split.
    + intros [post H]. by exists "", post.
    + intros [pre [post H]]. destruct pre; simpl in H; [by exists post | discriminate H].
  - cbn [Js.includes]. rewrite orb_true_iff, startsWith_prefix, IH. split.
    + intros [[post H] | [pre [post H]]].
      * by exists "", post.
      * exists (String c pre), post. simpl. by rewrite H.
    + intros [pre [post H]]. destruct pre as [|c' pre]; simpl in H.
      * left. by exists post.
      * right. injection H as -> ->. by exists pre, post.
Qed.

Lemma truthy_is_set (o : option string) : Js.truthy o = Spec.is_set o.
Proof. by destruct o as [[|c r]|]. Qed.

(** ** The title map *)

Section titles.
Import EventsComponent Examples.

(** The map binds an id to the title of the last media item with that id. *)
Lemma mediaTitlesMap_lookup (s : state) (mediaId : Z) :
  mediaTitlesMap s !! mediaId
  = Media.title <$> last (List.filter (λ m, bool_decide (Media.id m = mediaId)) (combinedMedia s)).
Proof.
  unfold mediaTitlesMap. generalize (combinedMedia s) as media. clear s.
  induction media as [|m media IH] using rev_ind; [done|].
  rewrite foldl_app, List.filter_app. simpl.
  case_bool_decide as Hid.
  - rewrite last_snoc, Hid. simpl. apply lookup_insert_eq.
  - rewrite app_nil_r, lookup_insert_ne by done. apply IH.
Qed.

(** C10.  [getMediaTitle] gives the placeholder ["Media #" ++ id] when the
    title map has no entry for the id and also when it binds the id to the
    empty string; when the map binds the id to a title, that title is what
    [getMediaTitle] returns exactly when the title is not empty. *)
Theorem getMediaTitle_placeholder (s : state) (mediaId : Z) :
  (mediaTitlesMap s !! mediaId = None →
     getMediaTitle s mediaId = "Media #" +:+ Js.number_to_string mediaId)
  ∧ (mediaTitlesMap s !! mediaId = Some "" →
     getMediaTitle s mediaId = "Media #" +:+ Js.number_to_string mediaId)
  ∧ (∀ stored, mediaTitlesMap s !! mediaId = Some stored →
       (getMediaTitle s mediaId = stored ↔ stored ≠ "")).
Proof.
  unfold getMediaTitle. split; [| split].
  - by intros ->.
  - by intros ->.
  - intros stored ->. split.
    + intros Hres ->. discriminate Hres.
    + intros Hne. by destruct stored.
Qed.

Lemma getMediaTitle_placeholder_witness :
  getMediaTitle library 7 = "Media #7"
  ∧ getMediaTitle library 9 = "Media #9"
  ∧ getMediaTitle library 8 = "Inception".
Proof.
  destruct (getMediaTitle_placeholder library 7) as (Habsent & _ & _).
  destruct (getMediaTitle_placeholder library 9) as (_ & Hempty & _).
  destruct (getMediaTitle_placeholder library 8) as (_ & _ & Hstored).
  split; [apply Habsent; reflexivity |].
  split; [apply Hempty; reflexivity |].
  apply (Hstored "Inception"); [reflexivity | discriminate].
Defined.

End titles.

(** ** Icons *)

Section icons.
Import EventsComponent.

(** An event type outside the enumeration falls through every [case]. *)
Lemma getEventIcon_default (eventType : string) :
  eventType ∉ EventType.values → getEventIcon eventType = "info".
Proof.
  intros Hnot. unfold getEventIcon.
  repeat (case_bool_decide;
          [exfalso; apply Hnot; subst eventType; unfold EventType.values; set_solver |]).
  reflexivity.
Qed.

(** The switch and the icon column of the table agree on every string. *)
Lemma getEventIcon_refines_table (eventType : string) :
  getEventIcon eventType = Spec.icon eventType.
Proof.
  unfold getEventIcon, Spec.icon, Spec.icon_table, Spec.row.
  unfold EventType.MEDIA_ADDED, EventType.MONITOR_CHANGED, EventType.YOUTUBE_ID_CHANGED,
    EventType.TRAILER_DETECTED, EventType.TRAILER_DOWNLOADED, EventType.TRAILER_DELETED,
    EventType.DOWNLOAD_SKIPPED.
  repeat match goal with
  | |- context [bool_decide (eventType = ?k)] =>
      destruct (decide (eventType = k)) as [-> | Hne];
      [ reflexivity
      | rewrite (bool_decide_eq_false_2 (eventType = k)) by done;
        rewrite (bool_decide_eq_false_2 (k = eventType)) by congruence;
        clear Hne ]
  end.
  reflexivity.
Qed.

(** C9.  [getEventIcon] returns the icon of the mapping table for each of
    the seven event types, and [info] for any other string. *)
Theorem getEventIcon_mapping :
  getEventIcon "media_added" = "add_circle"
  ∧ getEventIcon "monitor_changed" = "visibility"
  ∧ getEventIcon "youtube_id_changed" = "link"
  ∧ getEventIcon "trailer_detected" = "search"
  ∧ getEventIcon "trailer_downloaded" = "download"
  ∧ getEventIcon "trailer_deleted" = "delete"
  ∧ getEventIcon "download_skipped" = "block"
  ∧ (∀ eventType, eventType ∉ EventType.values → getEventIcon eventType = "info").
Proof.
  repeat split; try reflexivity. apply getEventIcon_default.
Qed.

Lemma getEventIcon_mapping_witness :
  EventsComponent.getEventIcon "media_removed" = "info".
Proof.
  destruct getEventIcon_mapping as (_ & _ & _ & _ & _ & _ & _ & Hother).
  apply Hother. apply (bool_decide_unpack _). vm_compute. exact I.
Defined.

End icons.

(** ** Request parameters of the feed *)

Section request_params.
Import EventsComponent.

(** Case analysis on the membership of an entry in a literal object. *)
Ltac entry_cases Hin :=
  repeat first
    [ apply elem_of_app in Hin as [Hin | Hin]
    | apply elem_of_cons in Hin as [Hin | Hin]
    | apply not_elem_of_nil in Hin; destruct Hin ];
  try discriminate Hin.

(** C6.  The parameters of the fetch always hold [limit]; they hold
    [event_type] exactly when the selected type is not ["all"] and
    [event_source] exactly when the selected source is not ["all"]; and no
    value among them is the ["all"] sentinel or [undefined]. *)
Theorem requestParams_omit_all (s : state) :
  ("limit", Js.Num (Z.of_nat (limit s))) ∈ requestParams s
  ∧ ((∃ v, ("event_type", v) ∈ requestParams s) ↔ selectedEventType s ≠ "all")
  ∧ ((∃ v, ("event_source", v) ∈ requestParams s) ↔ selectedEventSource s ≠ "all")
  ∧ Forall (λ kv, kv.2 ≠ Js.Str "all" ∧ kv.2 ≠ Js.Undefined) (requestParams s).
Proof.
  unfold requestParams. repeat split.
  - apply elem_of_app. left. apply list_elem_of_singleton. reflexivity.
  - intros [v Hin] Hall. rewrite Hall in Hin. simpl in Hin.
    case_bool_decide; entry_cases Hin.
  - intros Hne. exists (Js.Str (selectedEventType s)).
    rewrite bool_decide_eq_true_2 by done.
    apply elem_of_app. right. apply elem_of_app. left.
    apply list_elem_of_singleton. reflexivity.
  - intros [v Hin] Hall. rewrite Hall in Hin. simpl in Hin.
    case_bool_decide; entry_cases Hin.
  - intros Hne. exists (Js.Str (selectedEventSource s)).
    rewrite (bool_decide_eq_true_2 (selectedEventSource s ≠ "all")) by done.
    apply elem_of_app. right. apply elem_of_app. right.
    apply list_elem_of_singleton. reflexivity.
  - repeat case_bool_decide; repeat constructor; simpl; congruence.
Qed.

(** The keys of the request parameters are pairwise distinct, so the
    entries are those of one object. *)
Lemma requestParams_keys_NoDup (s : state) : NoDup (requestParams s).*1.
Proof.
  unfold requestParams.
  repeat case_bool_decide; simpl; repeat constructor;
    intros Hin; entry_cases Hin.
Qed.

End request_params.

(** ** The display window *)

Section display_window.
Import EventsComponent Examples.

(** C7.  A write that changes the selected event type, the selected event
    source or the search query puts [displayCount] back to 50, its
    initial value. *)
Theorem filter_change_resets_displayCount (s : state) (v : string) :
  displayCount initial = 50%nat
  ∧ (v ≠ selectedEventType s → displayCount (set_selectedEventType v s) = 50%nat)
  ∧ (v ≠ selectedEventSource s → displayCount (set_selectedEventSource v s) = 50%nat)
  ∧ (v ≠ searchQuery s → displayCount (set_searchQuery v s) = 50%nat).
Proof.
  unfold set_selectedEventType, set_selectedEventSource, set_searchQuery.
  repeat split; intros Hne; by rewrite bool_decide_eq_false_2.
Qed.

(** The setters change the signal they are named after. *)
Lemma set_selectedEventType_value (s : state) (v : string) :
  selectedEventType (set_selectedEventType v s) = v.
Proof. unfold set_selectedEventType. by case_bool_decide. Qed.

Lemma set_selectedEventSource_value (s : state) (v : string) :
  selectedEventSource (set_selectedEventSource v s) = v.
Proof. unfold set_selectedEventSource. by case_bool_decide. Qed.

Lemma set_searchQuery_value (s : state) (v : string) :
  searchQuery (set_searchQuery v s) = v.
Proof. unfold set_searchQuery. by case_bool_decide. Qed.

Lemma filter_change_resets_displayCount_witness :
  displayCount scrolled = 80%nat
  ∧ displayCount (set_selectedEventType "trailer_deleted" scrolled) = 50%nat
  ∧ displayCount (set_selectedEventSource "user" scrolled) = 50%nat
  ∧ displayCount (set_searchQuery "radarr" scrolled) = 50%nat.
Proof.
  destruct (filter_change_resets_displayCount scrolled "trailer_deleted") as (_ & Htype & _ & _).
  destruct (filter_change_resets_displayCount scrolled "user") as (_ & _ & Hsource & _).
  destruct (filter_change_resets_displayCount scrolled "radarr") as (_ & _ & _ & Hquery).
  split; [reflexivity |].
  split; [apply Htype; discriminate |].
  split; [apply Hsource; discriminate | apply Hquery; discriminate].
Defined.

(** The rendered list is the searched list cut at [displayCount]. *)
Lemma filteredEvents_length (s : state) :
  length (filteredEvents s) = (displayCount s `min` length (searchedEvents s))%nat.
Proof. unfold filteredEvents. apply length_take. Qed.

(** C5, as the code has it.  The rendered list never holds more than
    [displayCount] events. *)
Theorem filteredEvents_within_displayCount (s : state) :
  (length (filteredEvents s) ≤ displayCount s)%nat.
Proof. rewrite filteredEvents_length. lia. Qed.

(** C5, as stated, fails in the state the component starts in: nothing
    has been fetched, so the rendered list is empty while [displayCount]
    is 50. *)
Lemma displayCount_exceeds_rendered_length :
  displayCount initial = 50%nat
  ∧ length (filteredEvents initial) = 0%nat
  ∧ (length (filteredEvents initial) < displayCount initial)%nat.
Proof. vm_compute. repeat split; lia. Qed.

(** *** [loadMore] *)

(** C1, as the code has it.  [loadMore] compares [displayCount] with the
    number of fetched events, whatever the search query keeps of them.
    When [displayCount] covers the fetched events and their number has
    reached the fetch limit, the limit grows by 500 and [displayCount]
    stays; when [displayCount] does not cover the fetched events, it
    grows by 30 and the limit stays. *)
Theorem loadMore_on_fetched_count (s : state) :
  ((length (allEvents s) ≤ displayCount s)%nat →
   (limit s ≤ length (allEvents s))%nat →
     limit (loadMore s) = (limit s + 500)%nat
     ∧ displayCount (loadMore s) = displayCount s)
  ∧ ((displayCount s < length (allEvents s))%nat →
     displayCount (loadMore s) = (displayCount s + 30)%nat
     ∧ limit (loadMore s) = limit s).
Proof.
  unfold loadMore. split.
  - intros Hcover Hfull.
    rewrite (leb_correct _ _ Hcover), (leb_correct _ _ Hfull). done.
  - intros Hmore. rewrite leb_correct_conv by done. done.
Qed.

(** In the remaining case nothing changes: every fetched event is shown
    and the server had fewer events than the limit asked for. *)
Lemma loadMore_exhausted (s : state) :
  (length (allEvents s) ≤ displayCount s)%nat →
  (length (allEvents s) < limit s)%nat →
  loadMore s = s.
Proof.
  intros Hcover Hshort. unfold loadMore.
  rewrite (leb_correct _ _ Hcover), leb_correct_conv by done. done.
Qed.


Lemma loadMore_on_fetched_count_witness :
  (limit (loadMore (with_displayCount 500 full_window)) = 1000%nat
   ∧ displayCount (loadMore (with_displayCount 500 full_window)) = 500%nat)
  ∧ (displayCount (loadMore full_window) = 80%nat
     ∧ limit (loadMore full_window) = 500%nat).
Proof.
  split.
  - apply (loadMore_on_fetched_count (with_displayCount 500 full_window));
      vm_compute; lia.
  - apply (loadMore_on_fetched_count full_window). vm_compute. lia.
Defined.

(** C1, as stated, fails on [full_window].  The 50 rows shown are all the
    events the query keeps, and the 500 fetched events have reached the
    limit of 500, so the claim has the limit go to 1000 and
    [displayCount] stay at 50; [loadMore] shows 30 more rows instead and
    leaves the limit alone. *)
Lemma loadMore_ignores_the_query :
  displayCount full_window = 50%nat
  ∧ limit full_window = 500%nat
  ∧ length (allEvents full_window) = 500%nat
  ∧ length (searchedEvents full_window) = 50%nat
  ∧ length (filteredEvents full_window) = 50%nat
  ∧ limit (loadMore full_window) = 500%nat
  ∧ displayCount (loadMore full_window) = 80%nat.
Proof. vm_compute. repeat split. Qed.

End display_window.

(** ** The text search *)

Section search.
Import EventsComponent Examples.

Lemma lower_char_underscore (c : ascii) :
  bool_decide (Js.lower_char c = "_"%char) = bool_decide (c = "_"%char).
Proof. by destruct c as [[] [] [] [] [] [] [] []]. Qed.

(** Lower-casing and replacing underscores can be done in either order. *)
Lemma replaceAll_toLowerCase (t : string) :
  Js.replaceAll "_" " " (Js.toLowerCase t) = Js.toLowerCase (Js.replaceAll "_" " " t).
Proof.
  induction t as [|c t IH]; [done|]. simpl.
  rewrite IH, lower_char_underscore. by case_bool_decide.
Qed.

Lemma or_else_empty (o : option string) : Js.or_else o "" = default "" o.
Proof. by destruct o as [[|c r]|]. Qed.

(** The guard of the search is off exactly when the trimmed query is
    empty. *)
Lemma search_guard (q : string) :
  Js.truthy_string q && (0 <? String.length (Js.trim q))%nat = false ↔ Js.trim q = "".
Proof.
  destruct q as [|c q]; [done|].
  cbn [Js.truthy_string andb].
  destruct (Js.trim (String c q)) as [|c' q']; simpl; done.
Qed.

Lemma elem_of_List_filter {A} (f : A → bool) (l : list A) (x : A) :
  x ∈ List.filter f l ↔ x ∈ l ∧ f x = true.
Proof. rewrite !list_elem_of_In. apply filter_In. Qed.

Lemma List_filter_sublist {A} (f : A → bool) (l : list A) :
  List.filter f l `sublist_of` l.
Proof.
  induction l as [|x l IH]; simpl; [constructor|].
  destruct (f x); by constructor.
Qed.

(** The predicate of the filter, field by field. *)
Lemma matchesQuery_fields (s : state) (query : string) (event : EventRead) :
  matchesQuery (mediaTitlesMap s) query event = true
  ↔ ∃ field, field ∈ Spec.searched_fields s event
             ∧ Spec.substring query (Js.toLowerCase field).
Proof.
  unfold matchesQuery, Spec.searched_fields.
  rewrite <- Exists_exists, !Exists_cons, Exists_nil.
  rewrite !orb_true_iff, !includes_substring, !or_else_empty, replaceAll_toLowerCase.
  simpl. tauto.
Qed.

(** C2, as the code has it.  The rendered list is the searched list cut
    at [displayCount], hence a sublist of the fetched list; a fetched
    event survives the search if and only if the trimmed query is empty
    or the lower-cased query, white space included, occurs in the lower
    case of [source_detail], [old_value], [new_value], the event type
    with spaces for underscores, or the title that the title map binds
    to the media id. *)
Theorem filteredEvents_search (s : state) :
  filteredEvents s `sublist_of` allEvents s
  ∧ filteredEvents s = take (displayCount s) (searchedEvents s)
  ∧ searchedEvents s `sublist_of` allEvents s
  ∧ (∀ event, event ∈ searchedEvents s
              ↔ event ∈ allEvents s ∧ Spec.retained_as_typed s event).
Proof.
  assert (Hsub : searchedEvents s `sublist_of` allEvents s).
  { unfold searchedEvents.
    destruct (_ && _); [apply List_filter_sublist | done]. }
  split; [| split; [| split]].
  - unfold filteredEvents. etrans; [apply sublist_take | exact Hsub].
  - reflexivity.
  - exact Hsub.
  - intros event. unfold searchedEvents, Spec.retained_as_typed.
    destruct (_ && _) eqn:Hguard.
    + rewrite elem_of_List_filter, matchesQuery_fields.
      assert (Js.trim (Js.toLowerCase (searchQuery s)) ≠ "") as Hne.
      { intros Hempty. apply search_guard in Hempty. congruence. }
      tauto.
    + apply search_guard in Hguard. tauto.
Qed.

End search.

Section search_examples.
Import EventsComponent Examples.

(** The scenario of the specification: the query ["trailer"] keeps the
    downloaded trailer, whose type reads ["trailer downloaded"], and
    drops the added media. *)
Example search_trailer :
  filteredEvents (with_searchQuery "trailer" (with_allEvents [downloaded; added] initial))
  = [downloaded].
Proof. vm_compute. reflexivity. Qed.

(** C2, as stated, fails on [padded_query].  Trimmed and lower-cased the
    query is ["radarr"], which occurs in the new value ["Radarr"] of the
    fetched event, so the claim retains the event; the filter looks for
    [" radarr"] with its space and drops it. *)
Lemma search_keeps_white_space :
  added ∈ allEvents padded_query
  ∧ Spec.retained padded_query added
  ∧ displayCount padded_query = 50%nat
  ∧ filteredEvents padded_query = [].
Proof.
  split; [apply list_elem_of_singleton; reflexivity |].
  split; [| split; vm_compute; reflexivity].
  right. exists "Radarr". split.
  - apply elem_of_cons. right. apply elem_of_cons. right.
    apply elem_of_cons. left. reflexivity.
  - exists "", "". reflexivity.
Qed.

(** The placeholder that [getMediaTitle] shows for a media item without
    title is not searched. *)
Lemma placeholder_title_not_searched :
  getMediaTitle untitled (media_id added) = "Media #8"
  ∧ filteredEvents untitled = [].
Proof. vm_compute. split; reflexivity. Qed.

End search_examples.

(** ** Navigation parameters *)

Section navigation.
Import EventsComponent Examples.

(** What [onQueryParams] does to the type filter. *)
Lemma onQueryParams_selectedEventType (params : gmap string string) (s : state) :
  selectedEventType (onQueryParams params s)
  = match params !! "type" with
    | Some t => if bool_decide (t ∈ EventType.values) then t else selectedEventType s
    | None => selectedEventType s
    end.
Proof.
  unfold onQueryParams.
  set (s1 := match params !! "type" with Some t => _ | None => s end).
  assert (selectedEventType s1
          = match params !! "type" with
            | Some t => if bool_decide (t ∈ EventType.values) then t else selectedEventType s
            | None => selectedEventType s
            end) as <-.
  { subst s1. destruct (params !! "type") as [t|]; [|done].
    case_bool_decide as Hin.
    - replace (Js.truthy_string t) with true; [apply set_selectedEventType_value |].
      destruct t; [|done]. exfalso. revert Hin. by apply (bool_decide_unpack _).
    - by rewrite andb_false_r. }
  destruct (params !! "media_id") as [m|]; [|done].
  destruct (Js.truthy_string m); [|done].
  unfold set_searchQuery. by case_bool_decide.
Qed.

(** What [onQueryParams] does to the search query and the search form. *)
Lemma onQueryParams_searchQuery (params : gmap string string) (s : state) (m : string) :
  params !! "media_id" = Some m → m ≠ "" →
  searchQuery (onQueryParams params s) = m ∧ searchForm (onQueryParams params s) = Some m.
Proof.
  intros Hm Hne. unfold onQueryParams. rewrite Hm.
  destruct m as [|c m]; [done|]. simpl.
  split; [apply set_searchQuery_value |].
  unfold set_searchQuery. by case_bool_decide.
Qed.

(** C4, as the code has it.  The [type] parameter changes the type
    filter only when it is one of the event types, and then the filter
    takes it; any other [type] leaves the type filter as it was, and
    parameters that hold nothing but such a [type] leave the whole state
    as it was.  A non-empty [media_id] parameter, whether it is a number
    or not, becomes the value of the search form and the search query. *)
Theorem onQueryParams_seeds_filters (params : gmap string string) (s : state) :
  (selectedEventType (onQueryParams params s) ≠ selectedEventType s →
     ∃ t, params !! "type" = Some t ∧ t ∈ EventType.values
          ∧ selectedEventType (onQueryParams params s) = t)
  ∧ (∀ t, params !! "type" = Some t → t ∈ EventType.values →
       selectedEventType (onQueryParams params s) = t)
  ∧ (∀ t, params !! "type" = Some t → t ∉ EventType.values →
       selectedEventType (onQueryParams params s) = selectedEventType s
       ∧ (params !! "media_id" = None → onQueryParams params s = s))
  ∧ (∀ m, params !! "media_id" = Some m → m ≠ "" →
       searchQuery (onQueryParams params s) = m
       ∧ searchForm (onQueryParams params s) = Some m).
Proof.
  split; [| split; [| split]].
  - rewrite onQueryParams_selectedEventType.
    destruct (params !! "type") as [t|]; [|done].
    case_bool_decide; [eauto | done].
  - intros t Ht Hin. rewrite onQueryParams_selectedEventType, Ht.
    by rewrite bool_decide_eq_true_2.
  - intros t Ht Hnot. split.
    + rewrite onQueryParams_selectedEventType, Ht.
      by rewrite bool_decide_eq_false_2.
    + intros Hnone. unfold onQueryParams. rewrite Ht, Hnone.
      by rewrite bool_decide_eq_false_2, andb_false_r.
  - intros m. apply onQueryParams_searchQuery.
Qed.

Lemma onQueryParams_seeds_filters_witness :
  selectedEventType (onQueryParams type_deleted initial) = "trailer_deleted"
  ∧ onQueryParams type_unknown initial = initial
  ∧ searchQuery (onQueryParams media_id_abc initial) = "abc".
Proof.
  destruct (onQueryParams_seeds_filters type_deleted initial) as (_ & Hknown & _ & _).
  destruct (onQueryParams_seeds_filters type_unknown initial) as (_ & _ & Hunknown & _).
  destruct (onQueryParams_seeds_filters media_id_abc initial) as (_ & _ & _ & Hmedia).
  split; [| split].
  - apply Hknown; [reflexivity |]. apply (bool_decide_unpack _). vm_compute. exact I.
  - apply (Hunknown "media_renamed"); [reflexivity | | reflexivity].
    apply (bool_decide_unpack _). vm_compute. exact I.
  - apply (Hmedia "abc"); [reflexivity | discriminate].
Defined.

(** C4, as stated, fails on the parameters [media_id=abc]: the id is not
    a number, and it is not ignored, it becomes the search query (and the
    value of the search form). *)
Lemma non_numeric_media_id_is_applied :
  Spec.numeric_id "abc" = false
  ∧ searchQuery initial = ""
  ∧ searchQuery (onQueryParams media_id_abc initial) = "abc"
  ∧ searchForm (onQueryParams media_id_abc initial) = Some "abc".
Proof. vm_compute. repeat split. Qed.

End navigation.

(** ** Descriptions on the media page *)

Section descriptions.
Import MediaEventsComponent Examples.

Lemma shown_interpolate (o : option string) : Spec.shown o = Js.interpolate o.
Proof. reflexivity. Qed.

Lemma shown_or_none_or_else (o : option string) :
  Spec.shown_or_none o = Js.or_else o "none".
Proof. by destruct o as [[|c r]|]. Qed.

(** Every row of the table but the first is the code's. *)
Lemma getEventDescription_refines_table (event : EventRead) :
  event_type event ≠ "media_added" →
  getEventDescription event = Spec.description event.
Proof.
  intros Hnot.
  unfold getEventDescription, Spec.description, Spec.description_table, Spec.row.
  unfold EventType.MEDIA_ADDED, EventType.MONITOR_CHANGED, EventType.YOUTUBE_ID_CHANGED,
    EventType.TRAILER_DETECTED, EventType.TRAILER_DOWNLOADED, EventType.TRAILER_DELETED,
    EventType.DOWNLOAD_SKIPPED.
  destruct event as [i mid ty src detail old new created]. simpl in *.
  rewrite (bool_decide_eq_false_2 (ty = "media_added")) by done.
  rewrite (bool_decide_eq_false_2 ("media_added" = ty)) by congruence.
  repeat match goal with
  | |- context [bool_decide (ty = ?k)] =>
      destruct (decide (ty = k)) as [-> | Hne];
      [ rewrite (bool_decide_eq_true_2 (k = k)) by done
      | rewrite (bool_decide_eq_false_2 (ty = k)) by done;
        rewrite (bool_decide_eq_false_2 (k = ty)) by congruence;
        clear Hne ]
  end; try reflexivity.
  - (* monitor_changed *)
    by rewrite !bool_decide_and.
  - (* youtube_id_changed *)
    rewrite !truthy_is_set, !shown_or_none_or_else.
    destruct (Spec.is_set old), (Spec.is_set new); reflexivity.
  - by rewrite truthy_is_set.
  - by rewrite truthy_is_set.
  - by rewrite truthy_is_set.
  - destruct new as [[|c r]|]; reflexivity.
Qed.

(** C8, as the code has it.  For every event type but [media_added] the
    description is the one of the mapping table: in particular
    [monitor_changed] from ["true"] to ["false"] gives "Monitoring
    disabled" and from ["false"] to ["true"] "Monitoring enabled",
    [youtube_id_changed] with an empty old and a set new value gives
    "YouTube ID set to" that value, and an unrecognized type gives the
    empty string.  For [media_added] the description is the fixed
    sentence "Media was added to the library". *)
Theorem getEventDescription_mapping (event : EventRead) :
  (event_type event ≠ "media_added" → getEventDescription event = Spec.description event)
  ∧ (event_type event = "media_added" →
       getEventDescription event = "Media was added to the library")
  ∧ (event_type event = "monitor_changed" →
       old_value event = Some "true" → new_value event = Some "false" →
       getEventDescription event = "Monitoring disabled")
  ∧ (event_type event = "monitor_changed" →
       old_value event = Some "false" → new_value event = Some "true" →
       getEventDescription event = "Monitoring enabled")
  ∧ (∀ new, event_type event = "youtube_id_changed" →
       Spec.is_set (old_value event) = false → new_value event = Some new → new ≠ "" →
       getEventDescription event = "YouTube ID set to " +:+ new)
  ∧ (event_type event ∉ EventType.values → getEventDescription event = "").
Proof.
  split; [apply getEventDescription_refines_table |].
  unfold getEventDescription.
  destruct event as [i mid ty src detail old new created]. simpl.
  repeat split.
  - by intros ->.
  - by intros -> -> ->.
  - by intros -> -> ->.
  - intros new' -> Hold -> Hne. simpl.
    rewrite truthy_is_set, Hold. by destruct new'.
  - intros Hnot.
    repeat (case_bool_decide;
            [exfalso; apply Hnot; subst ty; unfold EventType.values; set_solver |]).
    reflexivity.
Qed.

Lemma getEventDescription_mapping_witness :
  getEventDescription monitor_off = "Monitoring disabled"
  ∧ getEventDescription monitor_on = "Monitoring enabled"
  ∧ getEventDescription youtube_set = "YouTube ID set to xyz"
  ∧ getEventDescription renamed = ""
  ∧ getEventDescription added = "Media was added to the library"
  ∧ getEventDescription downloaded = Spec.description downloaded.
Proof.
  destruct (getEventDescription_mapping monitor_off) as (_ & _ & Hoff & _).
  destruct (getEventDescription_mapping monitor_on) as (_ & _ & _ & Hon & _).
  destruct (getEventDescription_mapping youtube_set) as (_ & _ & _ & _ & Hset & _).
  destruct (getEventDescription_mapping renamed) as (_ & _ & _ & _ & _ & Hother).
  destruct (getEventDescription_mapping added) as (_ & Hadded & _).
  destruct (getEventDescription_mapping downloaded) as (Htable & _).
  split; [by apply Hoff |].
  split; [by apply Hon |].
  split; [by apply (Hset "xyz") |].
  split; [apply Hother; apply (bool_decide_unpack _); vm_compute; exact I |].
  split; [by apply Hadded | by apply Htable].
Defined.

(** C8, as stated, fails on a [media_added] event: the table has "Added
    from" followed by the new value, the media page has a fixed
    sentence. *)
Lemma media_added_description_differs :
  event_type added = "media_added"
  ∧ Spec.description added = "Added from Radarr"
  ∧ getEventDescription added = "Media was added to the library"
  ∧ getEventDescription added ≠ Spec.description added.
Proof. repeat split. discriminate. Qed.

End descriptions.

(** ** Parameters of the service requests *)

Section service_params.
Import Examples.
Variable apiUrl : string.

(** X21.  [filterParams] keeps, in order, exactly the entries whose value
    is neither [undefined] nor [null], and leaves an absent record
    absent. *)
Lemma filterParams_keeps_present (entries : Js.object) :
  EventsService.filterParams None = None
  ∧ ∃ sent, EventsService.filterParams (Some entries) = Some sent
      ∧ sent `sublist_of` entries
      ∧ (∀ k v, (k, v) ∈ sent ↔ (k, v) ∈ entries ∧ v ≠ Js.Undefined ∧ v ≠ Js.Null).
Proof.
  split; [reflexivity |].
  eexists. split; [reflexivity |]. split; [apply List_filter_sublist |].
  intros k v. rewrite elem_of_List_filter. simpl.
  destruct v; simpl; intuition congruence.
Qed.

(** Both list operations of the revised service send what [filterParams]
    returns. *)
Lemma revised_service_filters (mediaId : Z) (record : option Js.object) :
  params (EventsService.getEvents apiUrl record) = EventsService.filterParams record
  ∧ params (EventsService.getEventsByMediaId apiUrl mediaId record)
    = EventsService.filterParams record.
Proof. split; reflexivity. Qed.

(** C3 at the record [{limit: undefined, offset: 20}].  The service of
    [frontend/src/app/services/events.service.ts] sends the record as it
    is, [limit] bound to [undefined] included, from both list operations;
    the revised service sends [offset] alone. *)
Theorem cast_service_sends_unset_limit :
  params (EventsServiceCast.getEvents apiUrl (Some limit_unset))
  = Some [("limit", Js.Undefined); ("offset", Js.Num 20)]
  ∧ params (EventsServiceCast.getEventsByMediaId apiUrl 8 (Some limit_unset))
    = Some [("limit", Js.Undefined); ("offset", Js.Num 20)]
  ∧ params (EventsService.getEvents apiUrl (Some limit_unset))
    = Some [("offset", Js.Num 20)]
  ∧ params (EventsService.getEventsByMediaId apiUrl 8 (Some limit_unset))
    = Some [("offset", Js.Num 20)].
Proof. repeat split. Qed.

End service_params.

(** * Further properties of the code *)

(** ** Lower case, white space and occurrences *)

Lemma is_white_space_lower_char (c : ascii) :
  Js.is_white_space (Js.lower_char c) = Js.is_white_space c.
Proof. by destruct c as [[] [] [] [] [] [] [] []]. Qed.

Lemma lower_char_idempotent (c : ascii) :
  Js.lower_char (Js.lower_char c) = Js.lower_char c.
Proof. by destruct c as [[] [] [] [] [] [] [] []]. Qed.

Lemma toLowerCase_idempotent (t : string) :
  Js.toLowerCase (Js.toLowerCase t) = Js.toLowerCase t.
Proof.
  induction t as [|c t IH]; [done|]. simpl. by rewrite IH, lower_char_idempotent.
Qed.


Lemma blank_toLowerCase (t : string) : Spec.blank (Js.toLowerCase t) = Spec.blank t.
Proof.
  induction t as [|c t IH]; [done|]. simpl. by rewrite IH, is_white_space_lower_char.
Qed.


Lemma trimEnd_empty (t : string) : Js.trimEnd t = "" ↔ Spec.blank t = true.
Proof.
  induction t as [|c t IH]; [done|]. simpl.
  rewrite andb_true_iff, <- IH.
  destruct (Js.trimEnd t); destruct (Js.is_white_space c); intuition congruence.
Qed.

Lemma blank_trimStart (t : string) : Spec.blank (Js.trimStart t) = Spec.blank t.
Proof.
  induction t as [|c t IH]; [done|]. simpl.
  destruct (Js.is_white_space c) eqn:Hc; simpl; [done | by rewrite Hc].
Qed.

(** [trim] leaves nothing exactly of the strings of white space. *)
Lemma trim_empty (t : string) : Js.trim t = "" ↔ Spec.blank t = true.
Proof. unfold Js.trim. by rewrite trimEnd_empty, blank_trimStart. Qed.

Lemma string_app_assoc (t u v : string) : (t +:+ u) +:+ v = t +:+ u +:+ v.
Proof.
  induction t as [|c t IH]; [reflexivity |].
  change (String c ((t +:+ u) +:+ v) = String c (t +:+ u +:+ v)). by rewrite IH.
Qed.

Lemma string_app_empty_r (t : string) : t +:+ "" = t.
Proof.
  induction t as [|c t IH]; [reflexivity |].
  change (String c (t +:+ "") = String c t). by rewrite IH.
Qed.

Lemma substring_refl (t : string) : Spec.substring t t.
Proof. exists "", "". by rewrite string_app_empty_r. Qed.



(** ** More on the text search *)

Section search_more.
Import EventsComponent Examples.

(** A fetched event with a field in which the lower-cased query occurs
    survives the search. *)
Lemma search_hit (s : state) (event : EventRead) (field : string) :
  event ∈ allEvents s →
  field ∈ Spec.searched_fields s event →
  Spec.substring (Js.toLowerCase (searchQuery s)) (Js.toLowerCase field) →
  event ∈ searchedEvents s.
Proof.
  intros Hin Hfield Hsub. unfold searchedEvents.
  destruct (_ && _); [| done].
  apply elem_of_List_filter. split; [done |].
  apply matchesQuery_fields. eauto.
Qed.

(** The title map binds the id of a media item to its title when no later
    item of the list has the same id. *)
Lemma mediaTitlesMap_last (s : state) (before after : list Media.t) (m : Media.t) :
  combinedMedia s = before ++ m :: after →
  Forall (λ m', Media.id m' ≠ Media.id m) after →
  mediaTitlesMap s !! Media.id m = Some (Media.title m).
Proof.
  intros Hlist Hafter. rewrite mediaTitlesMap_lookup, Hlist.
  rewrite List.filter_app. simpl. rewrite bool_decide_eq_true_2 by done.
  replace (List.filter _ after) with (@nil Media.t).
  - by rewrite last_snoc.
  - symmetry. clear Hlist. induction Hafter as [|m' rest Hne _ IH]; [done|].
    simpl. by rewrite bool_decide_eq_false_2.
Qed.

(** X1.  A query that is empty or made of white space only filters
    nothing: the page shows the first [displayCount] fetched events. *)
Theorem blank_query_keeps_all (s : state) :
  Spec.blank (searchQuery s) = true →
  filteredEvents s = take (displayCount s) (allEvents s).
Proof.
  intros Hblank. unfold filteredEvents, searchedEvents.
  rewrite <- blank_toLowerCase in Hblank. apply trim_empty in Hblank.
  apply search_guard in Hblank. by rewrite Hblank.
Qed.

Lemma blank_query_keeps_all_witness :
  filteredEvents blank_query = [downloaded; added].
Proof. apply (blank_query_keeps_all blank_query). reflexivity. Defined.


(** X3.  The labels of the event types are searchable: every event type
    has a label, the lower case of the label is the event type with
    spaces for underscores, and a query equal to the label of an event's
    type, in any case, keeps the event. *)
Theorem label_query_keeps_type (s : state) (event : EventRead) (label : string) :
  (∀ t, t ∈ EventType.values ↔ is_Some (record_get EVENT_TYPE_LABELS t))
  ∧ (record_get EVENT_TYPE_LABELS (event_type event) = Some label →
       Js.toLowerCase label = Js.replaceAll "_" " " (event_type event)
       ∧ (event ∈ allEvents s →
          Js.toLowerCase (searchQuery s) = Js.toLowerCase label →
          event ∈ searchedEvents s)).
Proof.
  split.
  - intros t. unfold EVENT_TYPE_LABELS, EventType.values, record_get.
    rewrite !elem_of_cons, elem_of_nil.
    repeat (case_bool_decide; [subst t; split; [eauto | intros _; tauto] |]).
    split; [| by intros [? ?]]. intros Hin.
    repeat (destruct Hin as [-> | Hin]; [done |]). done.
  - intros Hlabel.
    assert (Js.toLowerCase label = Js.replaceAll "_" " " (event_type event)) as Hlower.
    { revert Hlabel. unfold EVENT_TYPE_LABELS, record_get.
      repeat (case_bool_decide as Heq;
              [rewrite <- Heq; intros [= <-]; reflexivity | clear Heq]).
      done. }
    split; [done |]. intros Hin Hquery.
    apply (search_hit s event (Js.replaceAll "_" " " (event_type event))); [done | |].
    + unfold Spec.searched_fields. rewrite !elem_of_cons. tauto.
    + rewrite Hquery, <- Hlower, toLowerCase_idempotent.
      apply substring_refl.
Qed.

Lemma label_query_keeps_type_witness :
  Js.toLowerCase "Media Added" = "media added"
  ∧ added ∈ searchedEvents label_query.
Proof.
  destruct (label_query_keeps_type label_query added "Media Added") as [_ Hlabel].
  destruct (Hlabel eq_refl) as [Hlower Hkeeps].
  split; [exact Hlower |].
  apply Hkeeps; [| reflexivity].
  apply elem_of_cons. right. apply elem_of_cons. left. reflexivity.
Defined.

(** X4.  Events can be found by the title of their media item: when the
    query occurs, whatever the case of either, in the title that the
    media list gives last for the media id of a fetched event, the event
    survives the search. *)
Theorem title_query_keeps_media_events
    (s : state) (event : EventRead) (before after : list Media.t) (m : Media.t) :
  combinedMedia s = before ++ m :: after →
  Forall (λ m', Media.id m' ≠ Media.id m) after →
  media_id event = Media.id m →
  event ∈ allEvents s →
  Spec.substring (Js.toLowerCase (searchQuery s)) (Js.toLowerCase (Media.title m)) →
  event ∈ searchedEvents s.
Proof.
  intros Hlist Hafter Hid Hin Hsub.
  apply (search_hit s event (Media.title m)); [done | | done].
  unfold Spec.searched_fields.
  rewrite Hid, (mediaTitlesMap_last s before after m Hlist Hafter). simpl.
  rewrite !elem_of_cons. tauto.
Qed.

Lemma title_query_keeps_media_events_witness : added ∈ searchedEvents retitled.
Proof.
  apply (title_query_keeps_media_events retitled added
           [Media.mk 8 "Incepton"; Media.mk 7 "Heat"] [] (Media.mk 8 "Inception")).
  - reflexivity.
  - constructor.
  - reflexivity.
  - apply elem_of_cons. right. apply elem_of_cons. left. reflexivity.
  - exists "in", "on". reflexivity.
Defined.

(** X5.  The title map has an entry for an id exactly when some media
    item has that id, and the entry is the title of the last such item
    of the media list. *)
Theorem mediaTitlesMap_last_wins (s : state) (mediaId : Z) :
  (mediaTitlesMap s !! mediaId = None
   ↔ Forall (λ m, Media.id m ≠ mediaId) (combinedMedia s))
  ∧ (∀ before m after,
       combinedMedia s = before ++ m :: after →
       Media.id m = mediaId →
       Forall (λ m', Media.id m' ≠ mediaId) after →
       mediaTitlesMap s !! mediaId = Some (Media.title m)).
Proof.
  split.
  - rewrite mediaTitlesMap_lookup. generalize (combinedMedia s) as media.
    induction media as [|m media IH] using rev_ind.
    + split; [constructor | done].
    + rewrite List.filter_app, Forall_app, Forall_singleton. simpl.
      case_bool_decide as Hid.
      * rewrite last_snoc. simpl. split; [done | tauto].
      * rewrite app_nil_r. tauto.
  - intros before m after Hlist <- Hafter. by eapply mediaTitlesMap_last.
Qed.

Lemma mediaTitlesMap_last_wins_witness :
  mediaTitlesMap retitled !! 8 = Some "Inception"
  ∧ mediaTitlesMap retitled !! 9 = None.
Proof.
  destruct (mediaTitlesMap_last_wins retitled 8) as [_ Hlast].
  destruct (mediaTitlesMap_last_wins retitled 9) as [Hnone _].
  split.
  - apply (Hlast [Media.mk 8 "Incepton"; Media.mk 7 "Heat"] (Media.mk 8 "Inception") []);
      [reflexivity | reflexivity | constructor].
  - apply Hnone. repeat constructor; discriminate.
Defined.

(** X6.  The title shown for a media id is never empty: it is the
    placeholder ["Media #" ++ id] or the non-empty title of a media item
    of the list that has this id. *)
Theorem getMediaTitle_shown (s : state) (mediaId : Z) :
  getMediaTitle s mediaId ≠ ""
  ∧ (getMediaTitle s mediaId = "Media #" +:+ Js.number_to_string mediaId
     ∨ ∃ m, m ∈ combinedMedia s ∧ Media.id m = mediaId
            ∧ Media.title m = getMediaTitle s mediaId).
Proof.
  unfold getMediaTitle. rewrite mediaTitlesMap_lookup.
  destruct (last _) as [m|] eqn:Hlast; simpl.
  - apply last_Some in Hlast as [front Hfront].
    assert (m ∈ List.filter (λ m, bool_decide (Media.id m = mediaId)) (combinedMedia s)) as Hm.
    { rewrite Hfront. apply elem_of_app. right. by apply list_elem_of_singleton. }
    apply elem_of_List_filter in Hm as [Hin Hid]. apply bool_decide_eq_true in Hid.
    destruct (Media.title m) as [|c r] eqn:Htitle; simpl.
    + split; [done | by left].
    + split; [done |]. right. exists m. by rewrite Htitle.
  - split; [done | by left].
Qed.

End search_more.

(** ** More on the display window *)

Section window_more.
Import EventsComponent Examples.




(** X8.  [loadMore] asks the server for more exactly when every fetched
    event is within [displayCount] and the fetched events are as many as
    the limit: then, and only then, the request parameters change. *)
Theorem loadMore_refetches (s : state) :
  requestParams (loadMore s) ≠ requestParams s
  ↔ (length (allEvents s) ≤ displayCount s)%nat ∧ (limit s ≤ length (allEvents s))%nat.
Proof.
  unfold loadMore.
  destruct (length (allEvents s) <=? displayCount s)%nat eqn:Hcover;
    [destruct (limit s <=? length (allEvents s))%nat eqn:Hfull |].
  - apply Nat.leb_le in Hcover, Hfull. split; [done |]. intros _.
    unfold requestParams. simpl. intros Heq. injection Heq as Heq. lia.
  - apply Nat.leb_le in Hcover. apply Nat.leb_gt in Hfull. split; [done | lia].
  - apply Nat.leb_gt in Hcover. split; [done | lia].
Qed.

(** X9.  [loadMore] is without effect exactly when every fetched event is
    within [displayCount] and the server returned fewer events than the
    limit allowed. *)
Theorem loadMore_at_rest (s : state) :
  loadMore s = s
  ↔ (length (allEvents s) ≤ displayCount s)%nat ∧ (length (allEvents s) < limit s)%nat.
Proof.
  split.
  - intros Hrest.
    assert (displayCount (loadMore s) = displayCount s) as Hcount by by rewrite Hrest.
    assert (limit (loadMore s) = limit s) as Hlimit by by rewrite Hrest.
    revert Hcount Hlimit. unfold loadMore.
    destruct (length (allEvents s) <=? displayCount s)%nat eqn:Hcover;
      [destruct (limit s <=? length (allEvents s))%nat eqn:Hfull |]; simpl.
    + lia.
    + apply Nat.leb_le in Hcover. apply Nat.leb_gt in Hfull. done.
    + lia.
  - intros [Hcover Hshort]. by apply loadMore_exhausted.
Qed.




End window_more.

Section window_witness.
Import EventsComponent Examples.


End window_witness.

(** ** More on the request parameters *)

Section requests_more.
Import EventsComponent Examples.
Variable apiUrl : string.

Lemma requestParams_present (s : state) :
  Forall (λ kv, Js.is_present kv.2 = true) (requestParams s).
Proof. unfold requestParams. repeat case_bool_decide; repeat constructor. Qed.

Lemma List_filter_all {A} (f : A → bool) (l : list A) :
  Forall (λ x, f x = true) l ↔ List.filter f l = l.
Proof.
  induction l as [|x l IH]; simpl.
  - split; [done | constructor].
  - rewrite Forall_cons, IH. destruct (f x) eqn:Hf.
    + split; [intros [_ ->]; done | intros [= Heq]; done].
    + split; [intros [[=] _] |]. intros Heq.
      pose proof (List_filter_sublist f l) as Hsub.
      rewrite Heq in Hsub. apply sublist_length in Hsub. simpl in Hsub. lia.
Qed.

(** X11.  The request parameters of the feed determine, and are
    determined by, the limit and the two selected filters; the text
    query is not among them, so writing the query never changes the
    request. *)
Theorem requestParams_determined (s1 s2 : state) (q : string) :
  (requestParams s1 = requestParams s2
   ↔ limit s1 = limit s2
     ∧ selectedEventType s1 = selectedEventType s2
     ∧ selectedEventSource s1 = selectedEventSource s2)
  ∧ requestParams (set_searchQuery q s1) = requestParams s1
  ∧ requestParams (onSearchFormValue (Some q) s1) = requestParams s1.
Proof.
  split; [| split].
  - split.
    + unfold requestParams. intros Heq.
      injection Heq as Hlimit Hrest. apply Nat2Z.inj in Hlimit.
      split; [done |].
      revert Hrest. repeat case_bool_decide; simpl; intros Hrest;
        simplify_eq; split; congruence.
    + intros (Hlimit & Htype & Hsource). unfold requestParams.
      by rewrite Hlimit, Htype, Hsource.
  - unfold set_searchQuery. by case_bool_decide.
  - unfold onSearchFormValue, set_searchQuery. by case_bool_decide.
Qed.

(** X12.  What the pages request is what the service would send: the
    request parameters of the feed hold no unset value, so [filterParams]
    returns them as they are and the request of the all-events page is
    that of [getEvents] on them; the request of the media page is that of
    [getEventsByMediaId] without parameters. *)
Theorem page_requests_match_service (s : state) (mediaId : Z) :
  EventsService.filterParams (Some (requestParams s)) = Some (requestParams s)
  ∧ Resources.allEvents apiUrl s = EventsService.getEvents apiUrl (Some (requestParams s))
  ∧ Resources.events apiUrl mediaId = EventsService.getEventsByMediaId apiUrl mediaId None.
Proof.
  assert (EventsService.filterParams (Some (requestParams s)) = Some (requestParams s)) as Hsame.
  { unfold EventsService.filterParams. f_equal.
    apply List_filter_all, requestParams_present. }
  split; [done |]. split; [| done].
  unfold Resources.allEvents, EventsService.getEvents. by rewrite Hsame.
Qed.

(** X13.  [filterParams] is a projection: filtering what it returns
    changes nothing more, it returns a record as it is exactly when no
    value of the record is [undefined] or [null], and it never returns
    more entries than it was given. *)
Theorem filterParams_projection (record : option Js.object) (entries : Js.object) :
  EventsService.filterParams (EventsService.filterParams record)
  = EventsService.filterParams record
  ∧ (EventsService.filterParams (Some entries) = Some entries
     ↔ Forall (λ kv, kv.2 ≠ Js.Undefined ∧ kv.2 ≠ Js.Null) entries)
  ∧ (∀ sent, EventsService.filterParams (Some entries) = Some sent →
       (length sent ≤ length entries)%nat).
Proof.
  split; [| split].
  - destruct record as [l|]; [| done]. simpl. f_equal.
    apply List_filter_all, Forall_forall. intros kv Hin.
    by apply elem_of_List_filter in Hin as [_ Hpresent].
  - simpl. split.
    + intros [= Heq]. apply List_filter_all in Heq.
      eapply Forall_impl; [exact Heq |]. intros [k v]; simpl. by destruct v.
    + intros Hall. f_equal. apply List_filter_all.
      eapply Forall_impl; [exact Hall |]. intros [k v]; simpl.
      intros [Hundefined Hnull]. by destruct v.
  - intros sent [= <-]. apply sublist_length, List_filter_sublist.
Qed.

(** X14.  The two revisions of the service ask the same URLs, and they
    send the same parameters exactly when there is no record or no value
    of the record is [undefined] or [null]. *)
Theorem service_revisions_agree (record : option Js.object) (mediaId : Z) :
  (params (EventsServiceCast.getEvents apiUrl record)
   = params (EventsService.getEvents apiUrl record)
   ↔ match record with
     | None => True
     | Some entries => Forall (λ kv, Js.is_present kv.2 = true) entries
     end)
  ∧ (params (EventsServiceCast.getEventsByMediaId apiUrl mediaId record)
     = params (EventsService.getEventsByMediaId apiUrl mediaId record)
     ↔ match record with
       | None => True
       | Some entries => Forall (λ kv, Js.is_present kv.2 = true) entries
       end)
  ∧ url (EventsServiceCast.getEvents apiUrl record)
    = url (EventsService.getEvents apiUrl record)
  ∧ url (EventsServiceCast.getEventsByMediaId apiUrl mediaId record)
    = url (EventsService.getEventsByMediaId apiUrl mediaId record).
Proof.
  assert (record = EventsService.filterParams record
          ↔ match record with
            | None => True
            | Some entries => Forall (λ kv, Js.is_present kv.2 = true) entries
            end) as Hagree.
  { destruct record as [entries|]; simpl; [| done].
    rewrite List_filter_all. split; [by intros [= <-] | by intros ->]. }
  repeat split; try apply Hagree; try reflexivity; by apply Hagree.
Qed.

End requests_more.

(** ** More on descriptions and icons *)

Section descriptions_more.
Import Examples.

Lemma app_nonempty (t u : string) : t ≠ "" → t +:+ u ≠ "".
Proof. by destruct t. Qed.

Lemma or_else_nonempty (o : option string) (d : string) : d ≠ "" → Js.or_else o d ≠ "".
Proof. by destruct o as [[|c r]|]. Qed.

Lemma or_else_falls_through (o : option string) (d : string) :
  Js.truthy o = false → Js.or_else o d = d.
Proof. by destruct o as [[|c r]|]. Qed.

Lemma or_else_taken (o : option string) (d : string) :
  Js.truthy o = true → Js.or_else o d ≠ "".
Proof. by destruct o as [[|c r]|]. Qed.

(** Case analysis on the event type, along the [switch] of a description:
    one goal per known type, and one for the others. *)
Ltac switch_event_type ty :=
  unfold EventType.values, EventType.MEDIA_ADDED, EventType.MONITOR_CHANGED,
    EventType.YOUTUBE_ID_CHANGED, EventType.TRAILER_DETECTED,
    EventType.TRAILER_DOWNLOADED, EventType.TRAILER_DELETED,
    EventType.DOWNLOAD_SKIPPED;
  repeat match goal with
  | |- context [bool_decide (ty = ?k)] =>
      destruct (decide (ty = k)) as [-> | ?];
      [ rewrite (bool_decide_eq_true_2 (k = k)) by done
      | rewrite (bool_decide_eq_false_2 (ty = k)) by done ]
  end.

Lemma known_type_elem (t : string) :
  t ∈ EventType.values
  ↔ t = "media_added" ∨ t = "monitor_changed" ∨ t = "youtube_id_changed"
    ∨ t = "trailer_detected" ∨ t = "trailer_downloaded" ∨ t = "trailer_deleted"
    ∨ t = "download_skipped".
Proof.
  unfold EventType.values. rewrite !elem_of_cons, elem_of_nil.
  unfold EventType.MEDIA_ADDED, EventType.MONITOR_CHANGED,
    EventType.YOUTUBE_ID_CHANGED, EventType.TRAILER_DETECTED,
    EventType.TRAILER_DOWNLOADED, EventType.TRAILER_DELETED,
    EventType.DOWNLOAD_SKIPPED. tauto.
Qed.

(** X15.  The media page leaves the description of an event empty
    exactly when the event type is none of the seven known ones. *)
Theorem media_description_empty (event : EventRead) :
  MediaEventsComponent.getEventDescription event = ""
  ↔ event_type event ∉ EventType.values.
Proof.
  rewrite known_type_elem.
  unfold MediaEventsComponent.getEventDescription.
  destruct event as [i mid ty src detail old new created]. simpl.
  switch_event_type ty.
  - split; [done | intros Hnot; exfalso; apply Hnot; tauto].
  - split; [| intros Hnot; exfalso; apply Hnot; tauto].
    repeat (destruct (_ && _)); done.
  - split; [| intros Hnot; exfalso; apply Hnot; tauto].
    repeat (destruct (_ && _)); done.
  - split; [| intros Hnot; exfalso; apply Hnot; tauto].
    destruct (Js.truthy new); done.
  - split; [| intros Hnot; exfalso; apply Hnot; tauto].
    destruct (Js.truthy new); done.
  - split; [| intros Hnot; exfalso; apply Hnot; tauto].
    destruct (Js.truthy new); done.
  - split; [| intros Hnot; exfalso; apply Hnot; tauto].
    intros Hempty. by apply or_else_nonempty in Hempty.
  - split; [intros _; tauto | done].
Qed.

(** X16.  The all-events page leaves the description of an event empty
    exactly when the event type is none of the seven known ones and
    neither the new nor the old value holds a non-empty string; for an
    unknown type it shows the new value if that is not empty, and the
    old value otherwise. *)
Theorem feed_description_empty (event : EventRead) :
  (EventsComponent.getEventDescription event = ""
   ↔ (event_type event ∉ EventType.values)
     ∧ Js.truthy (new_value event) = false ∧ Js.truthy (old_value event) = false)
  ∧ (event_type event ∉ EventType.values →
     EventsComponent.getEventDescription event
     = if Js.truthy (new_value event) then default "" (new_value event)
       else default "" (old_value event)).
Proof.
  rewrite known_type_elem.
  unfold EventsComponent.getEventDescription.
  destruct event as [i mid ty src detail old new created]. simpl.
  switch_event_type ty;
    try (split; [split; [done | intros [Hnot _]; exfalso; apply Hnot; tauto]
                | intros Hnot; exfalso; apply Hnot; tauto]).
  split.
  - split.
    + intros Hempty. split; [tauto |].
      destruct new as [[|c r]|], old as [[|c' r']|]; done.
    + intros (_ & Hnew & Hold). by rewrite !or_else_falls_through.
  - intros _. by destruct new as [[|c r]|], old as [[|c' r']|].
Qed.

(** X17.  [getEventIcon] tells the known event types apart: two known
    types with the same icon are the same type, and the icon is [info]
    exactly for the strings that are not a known type. *)
Theorem getEventIcon_distinguishes (t1 t2 : string) :
  (EventsComponent.getEventIcon t1 = "info" ↔ t1 ∉ EventType.values)
  ∧ (t1 ∈ EventType.values → t2 ∈ EventType.values →
     EventsComponent.getEventIcon t1 = EventsComponent.getEventIcon t2 → t1 = t2).
Proof.
  split.
  - split; [| apply getEventIcon_default].
    intros Hinfo Hin. apply known_type_elem in Hin.
    repeat (destruct Hin as [-> | Hin]; [discriminate Hinfo |]).
    subst t1. discriminate Hinfo.
  - intros Hin1 Hin2. apply known_type_elem in Hin1, Hin2.
    repeat (destruct Hin1 as [-> | Hin1]);
      repeat (destruct Hin2 as [-> | Hin2]); try subst t1; try subst t2;
      first [reflexivity | intros Heq; discriminate Heq].
Qed.

End descriptions_more.

(** ** More on navigation and on the life of the component *)

Section lifecycle.
Import EventsComponent Examples.




(** What the callback leaves alone. *)
Lemma onQueryParams_frame (params : gmap string string) (s : state) :
  selectedEventSource (onQueryParams params s) = selectedEventSource s
  ∧ limit (onQueryParams params s) = limit s
  ∧ allEvents (onQueryParams params s) = allEvents s
  ∧ combinedMedia (onQueryParams params s) = combinedMedia s
  ∧ (displayCount (onQueryParams params s) = displayCount s
     ∨ displayCount (onQueryParams params s) = 50%nat).
Proof.
  unfold onQueryParams, set_searchQuery, set_selectedEventType.
  destruct (params !! "type") as [t|], (params !! "media_id") as [m|];
    repeat first [case_bool_decide | destruct (Js.truthy_string _) ];
    simpl; repeat split; auto.
Qed.


(** One action keeps the shape of the two counters. *)
Lemma run_counters (s : state) (a : action) :
  (∃ k, displayCount s = 50 + 30 * k)%nat → (∃ j, limit s = 500 + 500 * j)%nat →
  (∃ k, displayCount (run s a) = 50 + 30 * k)%nat
  ∧ (∃ j, limit (run s a) = 500 + 500 * j)%nat.
Proof.
  intros [k Hk] [j Hj].
  assert (∀ s', (displayCount s' = displayCount s ∨ displayCount s' = 50%nat) →
                limit s' = limit s →
                (∃ k, displayCount s' = 50 + 30 * k)%nat
                ∧ (∃ j, limit s' = 500 + 500 * j)%nat) as Hsame.
  { intros s' [Hc | Hc] Hl; (split; [| exists j; lia]);
      [exists k; lia | exists 0%nat; lia]. }
  destruct a as [| params | value | t | t | events | media]; simpl.
  - unfold loadMore.
    destruct (_ <=? _)%nat; [destruct (_ <=? _)%nat |]; simpl.
    + split; [exists k; lia | exists (S j); lia].
    + split; [exists k; lia | exists j; lia].
    + split; [exists (S k); lia | exists j; lia].
  - destruct (onQueryParams_frame params s) as (_ & Hlimit & _ & _ & Hcount).
    by apply Hsame.
  - apply Hsame; unfold onSearchFormValue, set_searchQuery;
      case_bool_decide; simpl; auto.
  - apply Hsame; unfold set_selectedEventType; case_bool_decide; simpl; auto.
  - apply Hsame; unfold set_selectedEventSource; case_bool_decide; simpl; auto.
  - apply Hsame; simpl; auto.
  - apply Hsame; simpl; auto.
Qed.

(** X19.  Whatever happens to the component, [displayCount] is 50 plus a
    multiple of 30 and the fetch limit is a positive multiple of 500;
    in particular at least 50 rows may be shown and at least 500 events
    are asked for. *)
Theorem counters_invariant (actions : list action) :
  (∃ k, displayCount (after actions) = 50 + 30 * k)%nat
  ∧ (∃ j, limit (after actions) = 500 + 500 * j)%nat
  ∧ (50 ≤ displayCount (after actions))%nat
  ∧ (500 ≤ limit (after actions))%nat.
Proof.
  assert ((∃ k, displayCount (after actions) = 50 + 30 * k)%nat
          ∧ (∃ j, limit (after actions) = 500 + 500 * j)%nat) as [[k Hk] [j Hj]].
  { unfold after. induction actions as [|a actions IH] using rev_ind.
    - split; exists 0%nat; reflexivity.
    - rewrite foldl_app. simpl. destruct IH as [Hk Hj]. by apply run_counters. }
  split; [by exists k |]. split; [by exists j |]. lia.
Qed.

End lifecycle.

(** ** The URLs of the service *)

Section urls.
Variable apiUrl : string.

Lemma pretty_N_char_off_m (x : N) : pretty_N_char x ≠ "m"%char.
Proof. unfold pretty_N_char. by repeat case_match. Qed.

Lemma pretty_N_go_keeps_head (x : N) (t : string) :
  Spec.starts_off_m t → Spec.starts_off_m (pretty_N_go x t).
Proof.
  revert t. induction (N.lt_wf_0 x) as [x _ IH]. intros t Ht.
  destruct (decide (x = 0)%N) as [-> | Hpos].
  - by rewrite pretty_N_go_0.
  - rewrite pretty_N_go_step by lia.
    apply IH; [apply N.div_lt; lia |]. apply pretty_N_char_off_m.
Qed.

(** A number in decimal starts with a digit or a minus sign. *)
Lemma number_to_string_head (n : Z) : Spec.starts_off_m (Js.number_to_string n).
Proof.
  unfold Js.number_to_string, pretty, pretty_Z.
  destruct n as [| p | p]; [done | | done].
  unfold pretty, pretty_positive, pretty, pretty_N.
  rewrite decide_False by done.
  rewrite pretty_N_go_step by lia.
  apply pretty_N_go_keeps_head, pretty_N_char_off_m.
Qed.

(** X20.  The three kinds of request never share a URL, and requests for
    different ids have different URLs: the URL of an event is neither
    the URL of the list nor the URL of the events of a media item, and
    the id can be read back from either URL. *)
Theorem service_urls_distinct (a b : Z) (record : option Js.object) :
  (url (EventsService.getEvent apiUrl a) = url (EventsService.getEvent apiUrl b) ↔ a = b)
  ∧ (url (EventsService.getEventsByMediaId apiUrl a record)
     = url (EventsService.getEventsByMediaId apiUrl b record) ↔ a = b)
  ∧ url (EventsService.getEvent apiUrl a)
    ≠ url (EventsService.getEventsByMediaId apiUrl b record)
  ∧ url (EventsService.getEvent apiUrl a) ≠ url (EventsService.getEvents apiUrl record)
  ∧ url (EventsService.getEventsByMediaId apiUrl b record)
    ≠ url (EventsService.getEvents apiUrl record).
Proof.
  unfold EventsService.getEvent, EventsService.getEventsByMediaId,
    EventsService.getEvents, EventsService.eventsUrl. simpl.
  rewrite !string_app_assoc.
  pose proof (number_to_string_head a) as Ha.
  split; [| split; [| split; [| split]]].
  - split; [| by intros ->]. intros Heq.
    apply (inj (String.app apiUrl)), (inj (String.app "events/")) in Heq.
    by apply (inj pretty) in Heq.
  - split; [| by intros ->]. intros Heq.
    apply (inj (String.app apiUrl)), (inj (String.app "events/")),
      (inj (String.app "media/")) in Heq.
    by apply (inj pretty) in Heq.
  - intros Heq.
    apply (inj (String.app apiUrl)), (inj (String.app "events/")) in Heq.
    rewrite Heq in Ha. by apply Ha.
  - intros Heq. rewrite <- (string_app_empty_r "events/") in Heq at 2.
    apply (inj (String.app apiUrl)), (inj (String.app "events/")) in Heq.
    by rewrite Heq in Ha.
  - intros Heq. rewrite <- (string_app_empty_r "events/") in Heq at 2.
    apply (inj (String.app apiUrl)), (inj (String.app "events/")) in Heq.
    discriminate Heq.
Qed.

End urls.
